(** * USB gadget API: endpoint and gadget wrappers of include/linux/usb/gadget.h

    A shallow embedding of the static inline wrappers that sit between a
    gadget (function) driver and the controller driver's operation vectors:
    endpoint enable/disable, the optional endpoint operations, and the gadget
    connect/disconnect/deactivate/activate state machine.

    Conventions.
    - A C [int] return code is a [Z]; [if (ret)] is [negb (ret =? 0)].
    - A function pointer of an operation vector that the wrapper tests
      against NULL is an [option]; one that the wrapper calls without a test
      is a plain function.
    - The controller driver is outside this header.  One of its operations is
      modelled by the code it returns, as a function of its arguments and of
      the calls that reached the controller before (most recent first).
      A wrapper that calls an operation records the call in that history, so
      that "the hardware was not touched" is the statement that the history
      did not grow.  The flags that this header's wrappers manage
      ([enabled], [connected], [deactivated]) are written by the wrappers
      only.
    - What a controller operation writes to the endpoint it is handed (the
      header lets enable reduce [maxpacket]; a controller may clear [desc]
      on disable) is not represented.  No statement below says that
      [maxpacket], [desc] or another configuration field is the same before
      and after a call into the controller. *)

From Stdlib Require Import ZArith List Bool Lia.
Import ListNotations.
Local Open Scope Z_scope.

(** ** Error numbers (include/uapi/asm-generic/errno*.h) *)

Definition EINVAL : Z := 22.
Definition EOPNOTSUPP : Z := 95.

(** ** Data model *)

Inductive ep_type : Type :=
| EP_TYPE_NORMAL
| EP_TYPE_GSI.

(** Operation codes for GSI enabled endpoints, [enum gsi_ep_op]. *)
Inductive gsi_ep_op : Type :=
| GSI_EP_OP_CONFIG
| GSI_EP_OP_STARTXFER
| GSI_EP_OP_STORE_DBL_INFO
| GSI_EP_OP_ENABLE_GSI
| GSI_EP_OP_UPDATEXFER
| GSI_EP_OP_RING_IN_DB
| GSI_EP_OP_ENDXFER
| GSI_EP_OP_GET_CH_INFO
| GSI_EP_OP_GET_XFER_IDX
| GSI_EP_OP_PREPARE_TRBS
| GSI_EP_OP_FREE_TRBS
| GSI_EP_OP_SET_CLR_BLOCK_DBL
| GSI_EP_OP_CHECK_FOR_SUSPEND
| GSI_EP_OP_DISABLE.

Record usb_gsi_request : Type := {
  buf_base_addr : Z;
  dma : Z;
  num_bufs : Z;
  buf_len : Z
}.

(** The part of [struct usb_endpoint_descriptor] (linux/usb/ch9.h) that the
    wrappers look at. *)
Record usb_endpoint_descriptor : Type := {
  bEndpointAddress : Z;
  bmAttributes : Z;
  wMaxPacketSize : Z
}.

(** Modelled from the spec: [usb_endpoint_maxp] is declared in
    linux/usb/ch9.h, which is not part of the sources at hand.  It yields the
    descriptor's negotiated maximum packet size. *)
Definition usb_endpoint_maxp (epd : usb_endpoint_descriptor) : Z :=
  wMaxPacketSize epd.

(** Calls that reached the controller through an endpoint's operation
    vector, each with the code it returned. *)
Inductive ep_call : Type :=
| CallEnable (d : usb_endpoint_descriptor) (ret : Z)
| CallDisable (ret : Z)
| CallSetHalt (value : Z) (ret : Z)
| CallSetWedge (ret : Z)
| CallFifoStatus (ret : Z)
| CallFifoFlush
| CallGsiEpOp (req : option usb_gsi_request) (op : gsi_ep_op) (ret : Z).

(** [struct usb_ep_ops].  [enable], [disable] and [set_halt] are called
    without a NULL test; the others are optional.  [fifo_flush] returns
    nothing, so only the presence of the entry is kept.  Of an operation
    only the code it returns is kept, not what it writes to the endpoint
    (see the conventions at the head of the file). *)
Record usb_ep_ops : Type := {
  enable : list ep_call -> usb_endpoint_descriptor -> Z;
  disable : list ep_call -> Z;
  set_halt : list ep_call -> Z -> Z;
  set_wedge : option (list ep_call -> Z);
  fifo_status : option (list ep_call -> Z);
  fifo_flush : bool;
  gsi_ep_op_fn :
    option (list ep_call -> option usb_gsi_request -> gsi_ep_op -> Z)
}.

(** [struct usb_ep], without the fields that no wrapper below reads or
    writes (name, list linkage, capabilities, stream and burst parameters,
    addresses).  [desc] is a pointer that may be NULL; [ep_kind] is the
    field [ep_type], renamed because the enumeration has that name.
    [ep_calls] is the history of calls made through [ep_ops], most recent
    first. *)
Record usb_ep : Type := {
  ep_ops : usb_ep_ops;
  claimed : bool;
  enabled : bool;
  maxpacket : Z;
  maxpacket_limit : Z;
  desc : option usb_endpoint_descriptor;
  ep_kind : ep_type;
  ep_calls : list ep_call
}.

Definition ep_set_enabled (b : bool) (ep : usb_ep) : usb_ep :=
  {| ep_ops := ep_ops ep; claimed := claimed ep; enabled := b;
     maxpacket := maxpacket ep; maxpacket_limit := maxpacket_limit ep;
     desc := desc ep; ep_kind := ep_kind ep; ep_calls := ep_calls ep |}.

Definition ep_record (c : ep_call) (ep : usb_ep) : usb_ep :=
  {| ep_ops := ep_ops ep; claimed := claimed ep; enabled := enabled ep;
     maxpacket := maxpacket ep; maxpacket_limit := maxpacket_limit ep;
     desc := desc ep; ep_kind := ep_kind ep; ep_calls := c :: ep_calls ep |}.

(** ** Endpoint wrappers *)

(** [usb_ep_enable]: [None] is the NULL dereference of [ep->desc] inside
    [usb_endpoint_maxp]. *)
Definition usb_ep_enable (ep : usb_ep) : option (Z * usb_ep) :=
  if enabled ep then Some (0, ep)
  else
    match desc ep with
    | None => None
    | Some d =>
      if usb_endpoint_maxp d =? 0 then Some (- EINVAL, ep)
      else
        let ret := enable (ep_ops ep) (ep_calls ep) d in
        let ep1 := ep_record (CallEnable d ret) ep in
        if negb (ret =? 0) then Some (ret, ep1)
        else Some (0, ep_set_enabled true ep1)
    end.

Definition usb_ep_disable (ep : usb_ep) : Z * usb_ep :=
  if negb (enabled ep) then (0, ep)
  else
    let ret := disable (ep_ops ep) (ep_calls ep) in
    let ep1 := ep_record (CallDisable ret) ep in
    if negb (ret =? 0) then (ret, ep1)
    else (0, ep_set_enabled false ep1).

Definition usb_ep_set_halt (ep : usb_ep) : Z * usb_ep :=
  let ret := set_halt (ep_ops ep) (ep_calls ep) 1 in
  (ret, ep_record (CallSetHalt 1 ret) ep).

Definition usb_ep_clear_halt (ep : usb_ep) : Z * usb_ep :=
  let ret := set_halt (ep_ops ep) (ep_calls ep) 0 in
  (ret, ep_record (CallSetHalt 0 ret) ep).

Definition usb_ep_set_wedge (ep : usb_ep) : Z * usb_ep :=
  match set_wedge (ep_ops ep) with
  | Some op =>
    let ret := op (ep_calls ep) in
    (ret, ep_record (CallSetWedge ret) ep)
  | None =>
    let ret := set_halt (ep_ops ep) (ep_calls ep) 1 in
    (ret, ep_record (CallSetHalt 1 ret) ep)
  end.

Definition usb_ep_fifo_status (ep : usb_ep) : Z * usb_ep :=
  match fifo_status (ep_ops ep) with
  | Some op =>
    let ret := op (ep_calls ep) in
    (ret, ep_record (CallFifoStatus ret) ep)
  | None => (- EOPNOTSUPP, ep)
  end.

Definition usb_ep_fifo_flush (ep : usb_ep) : usb_ep :=
  if fifo_flush (ep_ops ep) then ep_record CallFifoFlush ep else ep.

Definition usb_gsi_ep_op (ep : usb_ep) (req : option usb_gsi_request)
    (op : gsi_ep_op) : Z * usb_ep :=
  match gsi_ep_op_fn (ep_ops ep) with
  | Some f =>
    let ret := f (ep_calls ep) req op in
    (ret, ep_record (CallGsiEpOp req op ret) ep)
  | None => (- EOPNOTSUPP, ep)
  end.

(** ** Gadget *)

(** Calls that reached the controller through a gadget's operation vector. *)
Inductive udc_call : Type :=
| CallWakeup (ret : Z)
| CallPullup (is_on : Z) (ret : Z).

(** The entries of [struct usb_gadget_ops] that the wrappers below use; both
    are tested against NULL before they are called. *)
Record usb_gadget_ops : Type := {
  wakeup : option (list udc_call -> Z);
  pullup : option (list udc_call -> Z -> Z)
}.

(** [struct usb_gadget], reduced to what the connection wrappers use: the
    operation vector, the two one-bit flags [deactivated] and [connected],
    and the history of calls made through [gadget_ops], most recent
    first. *)
Record usb_gadget : Type := {
  gadget_ops : usb_gadget_ops;
  deactivated : bool;
  connected : bool;
  udc_calls : list udc_call
}.

Definition set_connected (b : bool) (g : usb_gadget) : usb_gadget :=
  {| gadget_ops := gadget_ops g; deactivated := deactivated g;
     connected := b; udc_calls := udc_calls g |}.

Definition set_deactivated (b : bool) (g : usb_gadget) : usb_gadget :=
  {| gadget_ops := gadget_ops g; deactivated := b;
     connected := connected g; udc_calls := udc_calls g |}.

Definition udc_record (c : udc_call) (g : usb_gadget) : usb_gadget :=
  {| gadget_ops := gadget_ops g; deactivated := deactivated g;
     connected := connected g; udc_calls := c :: udc_calls g |}.

(** The D+/D- pullup as this layer can know it: the line is where the last
    [pullup] call that returned success put it, and it is off before any
    such call. *)
Fixpoint pullup_line (h : list udc_call) : bool :=
  match h with
  | [] => false
  | CallPullup is_on ret :: h' =>
    if ret =? 0 then negb (is_on =? 0) else pullup_line h'
  | CallWakeup _ :: h' => pullup_line h'
  end.

Definition pullup_asserted (g : usb_gadget) : bool :=
  pullup_line (udc_calls g).

Definition usb_gadget_wakeup (g : usb_gadget) : Z * usb_gadget :=
  match wakeup (gadget_ops g) with
  | None => (- EOPNOTSUPP, g)
  | Some op =>
    let ret := op (udc_calls g) in
    (ret, udc_record (CallWakeup ret) g)
  end.

Definition usb_gadget_connect (g : usb_gadget) : Z * usb_gadget :=
  match pullup (gadget_ops g) with
  | None => (- EOPNOTSUPP, g)
  | Some op =>
    if deactivated g then (0, set_connected true g)
    else
      let ret := op (udc_calls g) 1 in
      let g1 := udc_record (CallPullup 1 ret) g in
      (ret, if ret =? 0 then set_connected true g1 else g1)
  end.

Definition usb_gadget_disconnect (g : usb_gadget) : Z * usb_gadget :=
  match pullup (gadget_ops g) with
  | None => (- EOPNOTSUPP, g)
  | Some op =>
    if deactivated g then (0, set_connected false g)
    else
      let ret := op (udc_calls g) 0 in
      let g1 := udc_record (CallPullup 0 ret) g in
      (ret, if ret =? 0 then set_connected false g1 else g1)
  end.

Definition usb_gadget_deactivate (g : usb_gadget) : Z * usb_gadget :=
  if deactivated g then (0, g)
  else if connected g then
    let (ret, g1) := usb_gadget_disconnect g in
    if negb (ret =? 0) then (ret, g1)
    else (0, set_deactivated true (set_connected true g1))
  else (0, set_deactivated true g).

Definition usb_gadget_activate (g : usb_gadget) : Z * usb_gadget :=
  if negb (deactivated g) then (0, g)
  else
    let g1 := set_deactivated false g in
    if connected g1 then usb_gadget_connect g1 else (0, g1).

(** ** Runs of the connection state machine *)

Inductive gadget_call : Type :=
| Connect
| Disconnect
| Deactivate
| Activate.

Definition gadget_step (g : usb_gadget) (c : gadget_call) : usb_gadget :=
  match c with
  | Connect => snd (usb_gadget_connect g)
  | Disconnect => snd (usb_gadget_disconnect g)
  | Deactivate => snd (usb_gadget_deactivate g)
  | Activate => snd (usb_gadget_activate g)
  end.

Definition gadget_run (g : usb_gadget) (cs : list gadget_call) : usb_gadget :=
  fold_left gadget_step cs g.

(** The initial state: not connected, not deactivated, no call made yet (so
    the pullup is off). *)
Definition gadget_init (o : usb_gadget_ops) : usb_gadget :=
  {| gadget_ops := o; deactivated := false; connected := false;
     udc_calls := [] |}.

(** What a caller can observe of the connection state machine. *)
Definition observable (g : usb_gadget) : bool * bool * bool :=
  (connected g, deactivated g, pullup_asserted g).

(** [usb_gadget_deactivate] followed by [usb_gadget_activate]. *)
Definition deactivate_activate (g : usb_gadget) : usb_gadget :=
  snd (usb_gadget_activate (snd (usb_gadget_deactivate g))).

(** A controller whose pullup operation succeeds whenever it is called. *)
Definition pullup_always_succeeds (g : usb_gadget) : Prop :=
  exists op, pullup (gadget_ops g) = Some op /\ forall h v, op h v = 0.

(** ** Statements that are compared with the code *)

(** The pullup and the connect intent after [usb_gadget_deactivate] then
    [usb_gadget_activate] are what they were before. *)
Definition deactivate_activate_restores (g : usb_gadget) : Prop :=
  pullup_asserted (deactivate_activate g) = pullup_asserted g /\
  connected (deactivate_activate g) = connected g.

(** On a deactivated gadget, connect and disconnect succeed, only record the
    intent and make no call to the controller. *)
Definition intent_recorded_while_deactivated (g : usb_gadget) : Prop :=
  usb_gadget_connect g = (0, set_connected true g) /\
  usb_gadget_disconnect g = (0, set_connected false g) /\
  udc_calls (snd (usb_gadget_connect g)) = udc_calls g /\
  udc_calls (snd (usb_gadget_disconnect g)) = udc_calls g.

(** A successful [usb_ep_disable] of an enabled endpoint leaves it disabled
    with the descriptor reference [d]. *)
Definition disable_leaves_desc (ep : usb_ep)
    (d : option usb_endpoint_descriptor) : Prop :=
  enabled ep = true -> fst (usb_ep_disable ep) = 0 ->
  enabled (snd (usb_ep_disable ep)) = false /\
  desc (snd (usb_ep_disable ep)) = d.

(** The pullup is asserted only on a gadget that is active and whose connect
    intent is set. *)
Definition pullup_implies_visible (g : usb_gadget) : Prop :=
  pullup_asserted g = true -> deactivated g = false /\ connected g = true.

(** ** Sample controllers and objects *)

(** A controller whose gadget operations always succeed. *)
Definition udc_reliable : usb_gadget_ops :=
  {| wakeup := Some (fun _ => 0); pullup := Some (fun _ _ => 0) |}.

(** A controller without software pullup control and without remote
    wakeup. *)
Definition udc_bare : usb_gadget_ops :=
  {| wakeup := None; pullup := None |}.

(** A controller that cannot release the pullup: turning it off times out
    (-ETIMEDOUT), turning it on works. *)
Definition udc_stuck_on : usb_gadget_ops :=
  {| wakeup := None;
     pullup := Some (fun _ is_on => if is_on =? 0 then -110 else 0) |}.

(** A controller whose first attempt to raise the pullup times out; every
    later call succeeds. *)
Definition udc_slow_start : usb_gadget_ops :=
  {| wakeup := None;
     pullup := Some (fun h is_on =>
                       match h with
                       | [] => if is_on =? 0 then 0 else -110
                       | _ :: _ => 0
                       end) |}.

(** Connected, then deactivated: the intent is kept, the pullup is off. *)
Definition gadget_parked : usb_gadget :=
  gadget_run (gadget_init udc_reliable) [Connect; Deactivate].

(** Deactivated at bind time on a controller without pullup control. *)
Definition gadget_bare_parked : usb_gadget :=
  gadget_run (gadget_init udc_bare) [Deactivate].

(** Connected on the controller that cannot release the pullup. *)
Definition gadget_stuck : usb_gadget :=
  gadget_run (gadget_init udc_stuck_on) [Connect].

Definition bulk_in_desc : usb_endpoint_descriptor :=
  {| bEndpointAddress := 129; bmAttributes := 2; wMaxPacketSize := 512 |}.

Definition zero_maxp_desc : usb_endpoint_descriptor :=
  {| bEndpointAddress := 129; bmAttributes := 2; wMaxPacketSize := 0 |}.

(** Endpoint operations with the mandatory entries only, all succeeding. *)
Definition ep_ops_minimal : usb_ep_ops :=
  {| enable := fun _ _ => 0; disable := fun _ => 0; set_halt := fun _ _ => 0;
     set_wedge := None; fifo_status := None; fifo_flush := false;
     gsi_ep_op_fn := None |}.

(** A claimed, disabled endpoint with [maxpacket_limit] 64 bound to [d]. *)
Definition ep_bound (d : usb_endpoint_descriptor) : usb_ep :=
  {| ep_ops := ep_ops_minimal; claimed := true; enabled := false;
     maxpacket := 64; maxpacket_limit := 64; desc := Some d;
     ep_kind := EP_TYPE_NORMAL; ep_calls := [] |}.

(** The bulk endpoint after [usb_ep_enable]. *)
Definition ep_live : usb_ep :=
  match usb_ep_enable (ep_bound bulk_in_desc) with
  | Some (_, ep) => ep
  | None => ep_bound bulk_in_desc
  end.

(** ** The rest of the endpoint interface *)

(** [usb_ep_set_maxpacket_limit]: both fields are 16-bit bit-fields, so the
    [unsigned] argument is stored modulo 2^16. *)
Definition usb_ep_set_maxpacket_limit (ep : usb_ep) (limit : Z) : usb_ep :=
  {| ep_ops := ep_ops ep; claimed := claimed ep; enabled := enabled ep;
     maxpacket := limit mod 2 ^ 16; maxpacket_limit := limit mod 2 ^ 16;
     desc := desc ep; ep_kind := ep_kind ep; ep_calls := ep_calls ep |}.

(** Conversion to [size_t], 64 bits wide on the arm64 targets of this
    tree. *)
Definition size_t (x : Z) : Z := x mod 2 ^ 64.

(** Modelled from the spec: [round_up] is a macro of linux/kernel.h, which is
    not part of the sources at hand; [usb_ep_align] is documented to return
    the length aligned to the endpoint's maximum packet size.  The macro is
    [((((x)-1) | ((typeof(x))((y)-1))) + 1)], here with [x] a [size_t]. *)
Definition round_up (x y : Z) : Z :=
  size_t (Z.lor (size_t (x - 1)) (size_t (y - 1)) + 1).

(** The packet size that [usb_ep_align] rounds to: bits 10..0 of the
    descriptor's wMaxPacketSize. *)
Definition align_packet_size (d : usb_endpoint_descriptor) : Z :=
  Z.land (size_t (usb_endpoint_maxp d)) 2047.

(** [usb_ep_align]; [None] is the NULL dereference of [ep->desc]. *)
Definition usb_ep_align (ep : usb_ep) (len : Z) : option Z :=
  match desc ep with
  | None => None
  | Some d =>
    let max_packet_size := align_packet_size d in
    Some (round_up len max_packet_size)
  end.

(** [usb_ep_align_maybe]; the first argument is the gadget's
    [quirk_ep_out_aligned_size] bit. *)
Definition usb_ep_align_maybe (quirk_ep_out_aligned_size : bool)
    (ep : usb_ep) (len : Z) : option Z :=
  if quirk_ep_out_aligned_size then usb_ep_align ep len else Some len.

(** *** Sequences of endpoint calls *)

Inductive ep_api_call : Type :=
| EpEnable
| EpDisable
| EpSetHalt
| EpClearHalt
| EpSetWedge
| EpFifoStatus
| EpFifoFlush
| EpGsiOp (req : option usb_gsi_request) (op : gsi_ep_op).

(** One call; [None] when the call faults. *)
Definition ep_step (ep : usb_ep) (c : ep_api_call) : option usb_ep :=
  match c with
  | EpEnable => option_map snd (usb_ep_enable ep)
  | EpDisable => Some (snd (usb_ep_disable ep))
  | EpSetHalt => Some (snd (usb_ep_set_halt ep))
  | EpClearHalt => Some (snd (usb_ep_clear_halt ep))
  | EpSetWedge => Some (snd (usb_ep_set_wedge ep))
  | EpFifoStatus => Some (snd (usb_ep_fifo_status ep))
  | EpFifoFlush => Some (usb_ep_fifo_flush ep)
  | EpGsiOp req op => Some (snd (usb_gsi_ep_op ep req op))
  end.

Fixpoint ep_run (ep : usb_ep) (cs : list ep_api_call) : option usb_ep :=
  match cs with
  | [] => Some ep
  | c :: cs' =>
    match ep_step ep c with
    | Some ep' => ep_run ep' cs'
    | None => None
    end
  end.

(** What the controller knows of the endpoint: enabled by its last
    successful enable or disable operation, disabled before any. *)
Fixpoint hw_enabled (h : list ep_call) : bool :=
  match h with
  | [] => false
  | CallEnable _ ret :: h' => if ret =? 0 then true else hw_enabled h'
  | CallDisable ret :: h' => if ret =? 0 then false else hw_enabled h'
  | _ :: h' => hw_enabled h'
  end.

(** Every enable operation in the history was issued while the controller
    had the endpoint disabled, and every disable while it had it enabled. *)
Fixpoint enable_disable_paired (h : list ep_call) : bool :=
  match h with
  | [] => true
  | CallEnable _ _ :: h' => negb (hw_enabled h') && enable_disable_paired h'
  | CallDisable _ :: h' => hw_enabled h' && enable_disable_paired h'
  | _ :: h' => enable_disable_paired h'
  end.

(** An endpoint as the controller driver hands it out: not claimed, not
    enabled, no call made yet. *)
Definition ep_init (o : usb_ep_ops) (limit : Z)
    (d : option usb_endpoint_descriptor) : usb_ep :=
  usb_ep_set_maxpacket_limit
    {| ep_ops := o; claimed := false; enabled := false;
       maxpacket := 0; maxpacket_limit := 0; desc := d;
       ep_kind := EP_TYPE_NORMAL; ep_calls := [] |} limit.

(** An endpoint driver whose enable operation fails on every second
    attempt, and whose disable operation fails while the last call was a
    halt. *)
Definition ep_ops_flaky : usb_ep_ops :=
  {| enable := fun h _ => if Nat.even (length h) then 0 else -12;
     disable := fun h => match h with
                         | CallSetHalt _ _ :: _ => -16
                         | _ => 0
                         end;
     set_halt := fun _ _ => 0;
     set_wedge := Some (fun _ => 0); fifo_status := Some (fun _ => 0);
     fifo_flush := true; gsi_ep_op_fn := Some (fun _ _ _ => 0) |}.

(** ** Controller speed *)

(** Modelled from the spec: [enum usb_device_speed] is declared in
    linux/usb/ch9.h, which is not part of the sources at hand.  Its members
    are numbered in the order unknown, low, full, high, wireless, super. *)
Definition USB_SPEED_UNKNOWN : Z := 0.
Definition USB_SPEED_LOW : Z := 1.
Definition USB_SPEED_FULL : Z := 2.
Definition USB_SPEED_HIGH : Z := 3.
Definition USB_SPEED_WIRELESS : Z := 4.
Definition USB_SPEED_SUPER : Z := 5.

(** [gadget_is_dualspeed] and [gadget_is_superspeed], on the gadget's
    [max_speed] field. *)
Definition gadget_is_dualspeed (max_speed : Z) : Z :=
  Z.b2z (USB_SPEED_HIGH <=? max_speed).

Definition gadget_is_superspeed (max_speed : Z) : Z :=
  Z.b2z (USB_SPEED_SUPER <=? max_speed).

(** ** Runtime power management of the gadget's parent device *)

Definition ENODEV : Z := 19.
Definition EINPROGRESS : Z := 115.

(** Calls into the runtime PM core (linux/pm_runtime.h) on the parent
    device; the two whose status the wrappers read carry it. *)
Inductive pm_call : Type :=
| PmGetSync (status : Z)
| PmGet (status : Z)
| PmGetNoresume
| PmPutSync
| PmPut
| PmPutNoidle.

(** The parent device: the status that [pm_runtime_get_sync] and
    [pm_runtime_get] return, as functions of the calls made before, and the
    history of those calls, most recent first. *)
Record device : Type := {
  pm_runtime_get_sync : list pm_call -> Z;
  pm_runtime_get : list pm_call -> Z;
  pm_calls : list pm_call
}.

Definition pm_record (c : pm_call) (d : device) : device :=
  {| pm_runtime_get_sync := pm_runtime_get_sync d;
     pm_runtime_get := pm_runtime_get d;
     pm_calls := c :: pm_calls d |}.

(** The gadget pointer that the autopm wrappers receive: [None] is a NULL
    gadget, [Some None] a gadget whose [dev.parent] is NULL. *)
Definition gadget_parent : Type := option (option device).

Definition usb_gadget_autopm_get (gadget : gadget_parent)
    : Z * gadget_parent :=
  match gadget with
  | None | Some None => (- ENODEV, gadget)
  | Some (Some parent) =>
    let status := pm_runtime_get_sync parent (pm_calls parent) in
    let parent := pm_record (PmGetSync status) parent in
    let parent := if status <? 0 then pm_record PmPutSync parent
                  else parent in
    let status := if 0 <? status then 0 else status in
    (status, Some (Some parent))
  end.

Definition usb_gadget_autopm_get_async (gadget : gadget_parent)
    : Z * gadget_parent :=
  match gadget with
  | None | Some None => (- ENODEV, gadget)
  | Some (Some parent) =>
    let status := pm_runtime_get parent (pm_calls parent) in
    let parent := pm_record (PmGet status) parent in
    let parent :=
      if (status <? 0) && negb (status =? - EINPROGRESS)
      then pm_record PmPutNoidle parent else parent in
    let status :=
      if (0 <? status) || (status =? - EINPROGRESS) then 0 else status in
    (status, Some (Some parent))
  end.

Definition usb_gadget_autopm_get_noresume (gadget : gadget_parent)
    : gadget_parent :=
  match gadget with
  | Some (Some parent) => Some (Some (pm_record PmGetNoresume parent))
  | _ => gadget
  end.

Definition usb_gadget_autopm_put (gadget : gadget_parent) : gadget_parent :=
  match gadget with
  | Some (Some parent) => Some (Some (pm_record PmPutSync parent))
  | _ => gadget
  end.

Definition usb_gadget_autopm_put_async (gadget : gadget_parent)
    : gadget_parent :=
  match gadget with
  | Some (Some parent) => Some (Some (pm_record PmPut parent))
  | _ => gadget
  end.

Definition usb_gadget_autopm_put_no_suspend (gadget : gadget_parent)
    : gadget_parent :=
  match gadget with
  | Some (Some parent) => Some (Some (pm_record PmPutNoidle parent))
  | _ => gadget
  end.

(** Usage references taken minus references dropped by the calls of a
    history: every get call takes one, every put call drops one. *)
Fixpoint pm_balance (h : list pm_call) : Z :=
  match h with
  | [] => 0
  | (PmGetSync _ | PmGet _ | PmGetNoresume) :: h' => pm_balance h' + 1
  | (PmPutSync | PmPut | PmPutNoidle) :: h' => pm_balance h' - 1
  end.

Definition pm_held (gadget : gadget_parent) : Z :=
  match gadget with
  | Some (Some parent) => pm_balance (pm_calls parent)
  | _ => 0
  end.

(** A parent device whose synchronous resume fails with -EACCES and whose
    asynchronous resume is still in progress. *)
Definition parent_suspended : device :=
  {| pm_runtime_get_sync := fun _ => -13;
     pm_runtime_get := fun _ => - EINPROGRESS;
     pm_calls := [] |}.

(** * Endpoint enable and disable *)

(** A successful [usb_ep_enable] always leaves the endpoint enabled. *)
Lemma usb_ep_enable_success_enabled ep ep' :
  usb_ep_enable ep = Some (0, ep') -> enabled ep' = true.
Proof.
  unfold usb_ep_enable.
  destruct (enabled ep) eqn:He.
  - intros H; injection H as <-; exact He.
  - destruct (desc ep) as [d|]; [|discriminate].
    destruct (usb_endpoint_maxp d =? 0).
    + unfold EINVAL; intros H; discriminate H.
    + destruct (enable (ep_ops ep) (ep_calls ep) d =? 0) eqn:Hr; simpl.
      * intros H; injection H as <-; reflexivity.
      * intros H; injection H as Hret _.
        rewrite Hret in Hr; discriminate Hr.
Qed.

(** C3: enabling a disabled endpoint whose bound descriptor has a maximum
    packet size of zero fails with -EINVAL; the endpoint is returned as it
    was, so it is still disabled and the controller's enable operation was
    not called. *)
Theorem usb_ep_enable_zero_maxp ep d :
  enabled ep = false ->
  desc ep = Some d ->
  usb_endpoint_maxp d = 0 ->
  usb_ep_enable ep = Some (- EINVAL, ep) /\
  (forall r ep', usb_ep_enable ep = Some (r, ep') ->
     r = - EINVAL /\ enabled ep' = false /\ ep_calls ep' = ep_calls ep).
Proof.
  intros He Hd Hz.
  assert (Hrun : usb_ep_enable ep = Some (- EINVAL, ep)).
  { unfold usb_ep_enable. rewrite He, Hd, Hz. reflexivity. }
  split; [exact Hrun|].
  intros r ep' H. rewrite Hrun in H.
  injection H as <- <-. auto.
Qed.

Lemma usb_ep_enable_zero_maxp_witness :
  usb_ep_enable (ep_bound zero_maxp_desc)
    = Some (- EINVAL, ep_bound zero_maxp_desc).
Proof.
  apply (usb_ep_enable_zero_maxp (ep_bound zero_maxp_desc) zero_maxp_desc);
    reflexivity.
Defined.

(** C4, as the code has it: [usb_ep_disable] on a disabled endpoint returns
    0 and changes nothing; a successful disable of an enabled endpoint clears
    [enabled]. *)
Theorem usb_ep_disable_spec ep :
  (enabled ep = false -> usb_ep_disable ep = (0, ep)) /\
  (enabled ep = true ->
   fst (usb_ep_disable ep) = 0 ->
   enabled (snd (usb_ep_disable ep)) = false).
Proof.
  split.
  - intros He. unfold usb_ep_disable. rewrite He. reflexivity.
  - unfold usb_ep_disable. intros He.
    rewrite He; simpl.
    destruct (disable (ep_ops ep) (ep_calls ep) =? 0) eqn:Hr; simpl.
    + intros _. reflexivity.
    + intros H. rewrite H in Hr. discriminate Hr.
Qed.

Lemma usb_ep_disable_spec_witness :
  usb_ep_disable (ep_bound bulk_in_desc) = (0, ep_bound bulk_in_desc) /\
  enabled (snd (usb_ep_disable ep_live)) = false.
Proof.
  split.
  - apply (proj1 (usb_ep_disable_spec (ep_bound bulk_in_desc))). reflexivity.
  - apply (proj2 (usb_ep_disable_spec ep_live)); reflexivity.
Defined.

(** C4, as it is worded, fails: on a controller whose disable operation
    only returns 0, the descriptor reference of the enabled bulk endpoint is
    still set after a successful disable. *)
Lemma usb_ep_disable_keeps_desc :
  ~ disable_leaves_desc ep_live None.
Proof.
  intros H.
  destruct (H eq_refl eq_refl) as [_ Hd].
  discriminate Hd.
Qed.

(** C5: a second [usb_ep_enable] right after a successful one returns 0 and
    returns the endpoint as it was, call history included. *)
Theorem usb_ep_enable_idempotent ep ep' :
  usb_ep_enable ep = Some (0, ep') ->
  usb_ep_enable ep' = Some (0, ep').
Proof.
  intros H. apply usb_ep_enable_success_enabled in H.
  unfold usb_ep_enable. rewrite H. reflexivity.
Qed.

Lemma usb_ep_enable_idempotent_witness :
  usb_ep_enable ep_live = Some (0, ep_live).
Proof.
  apply (usb_ep_enable_idempotent (ep_bound bulk_in_desc) ep_live).
  reflexivity.
Defined.

(** * Optional entries of the operation vectors *)

(** C8: with the optional entry absent, [usb_ep_set_wedge] does what
    [usb_ep_set_halt] does, [usb_ep_fifo_status] and [usb_gadget_wakeup]
    return -EOPNOTSUPP, and [usb_gsi_ep_op] returns -EOPNOTSUPP for every
    operation code; the three that return -EOPNOTSUPP change nothing. *)
Theorem optional_ops_fallback :
  (forall ep, set_wedge (ep_ops ep) = None ->
     usb_ep_set_wedge ep = usb_ep_set_halt ep) /\
  (forall ep, fifo_status (ep_ops ep) = None ->
     usb_ep_fifo_status ep = (- EOPNOTSUPP, ep)) /\
  (forall g, wakeup (gadget_ops g) = None ->
     usb_gadget_wakeup g = (- EOPNOTSUPP, g)) /\
  (forall ep req op, gsi_ep_op_fn (ep_ops ep) = None ->
     usb_gsi_ep_op ep req op = (- EOPNOTSUPP, ep)).
Proof.
  split; [|split; [|split]].
  - intros ep H. unfold usb_ep_set_wedge, usb_ep_set_halt. now rewrite H.
  - intros ep H. unfold usb_ep_fifo_status. now rewrite H.
  - intros g H. unfold usb_gadget_wakeup. now rewrite H.
  - intros ep req op H. unfold usb_gsi_ep_op. now rewrite H.
Qed.

Lemma optional_ops_fallback_witness :
  usb_ep_set_wedge ep_live = usb_ep_set_halt ep_live /\
  usb_ep_fifo_status ep_live = (- EOPNOTSUPP, ep_live) /\
  usb_gadget_wakeup gadget_bare_parked = (- EOPNOTSUPP, gadget_bare_parked) /\
  usb_gsi_ep_op ep_live None GSI_EP_OP_CONFIG = (- EOPNOTSUPP, ep_live).
Proof.
  destruct optional_ops_fallback as (Hw & Hf & Hg & Hop).
  split; [|split; [|split]].
  - apply (Hw ep_live). reflexivity.
  - apply (Hf ep_live). reflexivity.
  - apply (Hg gadget_bare_parked). reflexivity.
  - apply (Hop ep_live None GSI_EP_OP_CONFIG). reflexivity.
Defined.

(** * Connect and disconnect *)

(** A failed pullup call leaves the line where it was; a successful one
    puts it where it was asked to. *)
Lemma pullup_asserted_record g is_on ret :
  pullup_asserted (udc_record (CallPullup is_on ret) g)
    = if ret =? 0 then negb (is_on =? 0) else pullup_asserted g.
Proof. reflexivity. Qed.

(** C2, as the code has it: on a deactivated gadget whose operation vector
    has the pullup entry, connect sets [connected], disconnect clears it,
    both return 0 and neither calls the controller. *)
Theorem deactivated_connect_records_intent g op :
  pullup (gadget_ops g) = Some op ->
  deactivated g = true ->
  intent_recorded_while_deactivated g.
Proof.
  intros Hp Hd.
  unfold intent_recorded_while_deactivated,
    usb_gadget_connect, usb_gadget_disconnect.
  rewrite Hp, Hd. repeat split.
Qed.

Lemma deactivated_connect_records_intent_witness :
  intent_recorded_while_deactivated gadget_parked.
Proof.
  apply (deactivated_connect_records_intent gadget_parked (fun _ _ => 0));
    reflexivity.
Defined.

(** C2, as it is worded, fails: deactivated at bind time on a controller
    without the pullup entry, a connect is refused and no intent is kept. *)
Lemma deactivated_connect_needs_pullup :
  deactivated gadget_bare_parked = true /\
  ~ intent_recorded_while_deactivated gadget_bare_parked.
Proof.
  split; [reflexivity|].
  intros (Hc & _). discriminate Hc.
Qed.

(** C9: without the pullup entry, connect and disconnect return -EOPNOTSUPP
    and return the gadget as it was, whatever [deactivated] is. *)
Theorem connect_without_pullup g :
  pullup (gadget_ops g) = None ->
  usb_gadget_connect g = (- EOPNOTSUPP, g) /\
  usb_gadget_disconnect g = (- EOPNOTSUPP, g).
Proof.
  intros Hp. unfold usb_gadget_connect, usb_gadget_disconnect.
  rewrite Hp. split; reflexivity.
Qed.

Lemma connect_without_pullup_witness :
  deactivated gadget_bare_parked = true /\
  usb_gadget_connect gadget_bare_parked
    = (- EOPNOTSUPP, gadget_bare_parked) /\
  usb_gadget_disconnect gadget_bare_parked
    = (- EOPNOTSUPP, gadget_bare_parked).
Proof.
  split; [reflexivity|].
  apply (connect_without_pullup gadget_bare_parked). reflexivity.
Defined.

(** The active branch of connect and disconnect, by outcome of the pullup
    call. *)
Lemma usb_gadget_connect_active g op :
  pullup (gadget_ops g) = Some op ->
  deactivated g = false ->
  usb_gadget_connect g =
    let ret := op (udc_calls g) 1 in
    (ret, if ret =? 0
          then set_connected true (udc_record (CallPullup 1 ret) g)
          else udc_record (CallPullup 1 ret) g).
Proof.
  intros Hp Hd. unfold usb_gadget_connect. rewrite Hp, Hd. reflexivity.
Qed.

Lemma usb_gadget_disconnect_active g op :
  pullup (gadget_ops g) = Some op ->
  deactivated g = false ->
  usb_gadget_disconnect g =
    let ret := op (udc_calls g) 0 in
    (ret, if ret =? 0
          then set_connected false (udc_record (CallPullup 0 ret) g)
          else udc_record (CallPullup 0 ret) g).
Proof.
  intros Hp Hd. unfold usb_gadget_disconnect. rewrite Hp, Hd. reflexivity.
Qed.

(** C7: on an active gadget whose pullup operation succeeds, a second
    connect returns 0 and leaves what the first one left (connected, pullup
    asserted), and likewise for disconnect (not connected, pullup off). *)
Theorem connect_twice_as_once g :
  deactivated g = false ->
  pullup_always_succeeds g ->
  let c1 := usb_gadget_connect g in
  let c2 := usb_gadget_connect (snd c1) in
  let d1 := usb_gadget_disconnect g in
  let d2 := usb_gadget_disconnect (snd d1) in
  (fst c1 = 0 /\ fst c2 = 0 /\
   observable (snd c1) = (true, false, true) /\
   observable (snd c2) = observable (snd c1)) /\
  (fst d1 = 0 /\ fst d2 = 0 /\
   observable (snd d1) = (false, false, false) /\
   observable (snd d2) = observable (snd d1)).
Proof.
  intros Hd (op & Hp & Hok) c1 c2 d1 d2.
  split.
  - subst c2 c1.
    rewrite (usb_gadget_connect_active g op Hp Hd).
    cbv zeta. rewrite Hok. cbn [Z.eqb fst snd].
    rewrite (usb_gadget_connect_active
               (set_connected true (udc_record (CallPullup 1 0) g)) op Hp Hd).
    cbv zeta. rewrite Hok. cbn [Z.eqb fst snd].
    unfold observable, pullup_asserted. cbn. rewrite Hd. auto.
  - subst d2 d1.
    rewrite (usb_gadget_disconnect_active g op Hp Hd).
    cbv zeta. rewrite Hok. cbn [Z.eqb fst snd].
    rewrite (usb_gadget_disconnect_active
               (set_connected false (udc_record (CallPullup 0 0) g)) op Hp Hd).
    cbv zeta. rewrite Hok. cbn [Z.eqb fst snd].
    unfold observable, pullup_asserted. cbn. rewrite Hd. auto.
Qed.

Lemma connect_twice_as_once_witness :
  observable (gadget_run (gadget_init udc_reliable) [Connect; Connect])
    = observable (gadget_run (gadget_init udc_reliable) [Connect]) /\
  observable (gadget_run (gadget_init udc_reliable) [Disconnect; Disconnect])
    = observable (gadget_run (gadget_init udc_reliable) [Disconnect]).
Proof.
  assert (Hok : pullup_always_succeeds (gadget_init udc_reliable)).
  { exists (fun _ _ => 0). split; reflexivity. }
  destruct (connect_twice_as_once (gadget_init udc_reliable) eq_refl Hok)
    as ((_ & _ & _ & Hc) & (_ & _ & _ & Hd)).
  split; [exact Hc | exact Hd].
Defined.

(** * Deactivate and activate *)

Ltac gadget_cases g :=
  destruct g as [[w [op|]] d c h];
  unfold usb_gadget_activate, usb_gadget_deactivate,
    usb_gadget_connect, usb_gadget_disconnect,
    pullup_asserted, set_connected, set_deactivated, udc_record;
  cbn;
  repeat match goal with
         | |- context [if ?b then _ else _] => destruct b eqn:?; cbn
         end.

Lemma connect_keeps_visibility g :
  pullup_implies_visible g ->
  pullup_implies_visible (snd (usb_gadget_connect g)).
Proof.
  unfold pullup_implies_visible. gadget_cases g;
    cbn in *; intuition congruence.
Qed.

Lemma disconnect_keeps_visibility g :
  pullup_implies_visible g ->
  pullup_implies_visible (snd (usb_gadget_disconnect g)).
Proof.
  unfold pullup_implies_visible. gadget_cases g;
    cbn in *; intuition congruence.
Qed.

Lemma deactivate_keeps_visibility g :
  pullup_implies_visible g ->
  pullup_implies_visible (snd (usb_gadget_deactivate g)).
Proof.
  unfold pullup_implies_visible. gadget_cases g;
    cbn in *; intuition congruence.
Qed.

Lemma activate_keeps_visibility g :
  pullup_implies_visible g ->
  pullup_implies_visible (snd (usb_gadget_activate g)).
Proof.
  unfold pullup_implies_visible. gadget_cases g;
    cbn in *; intuition congruence.
Qed.

Lemma gadget_step_keeps_visibility g c :
  pullup_implies_visible g -> pullup_implies_visible (gadget_step g c).
Proof.
  destruct c; cbn [gadget_step];
    auto using connect_keeps_visibility, disconnect_keeps_visibility,
      deactivate_keeps_visibility, activate_keeps_visibility.
Qed.

Lemma gadget_run_keeps_visibility cs : forall g,
  pullup_implies_visible g -> pullup_implies_visible (gadget_run g cs).
Proof.
  induction cs as [|c cs IH]; intros g Hg; cbn.
  - exact Hg.
  - apply IH. now apply gadget_step_keeps_visibility.
Qed.

(** C6: in every state reached from the initial one by connect, disconnect,
    deactivate and activate calls, on any controller, an asserted pullup
    means that the gadget is not deactivated and that its connect intent is
    set. *)
Theorem pullup_only_when_visible (o : usb_gadget_ops) (cs : list gadget_call) :
  pullup_asserted (gadget_run (gadget_init o) cs) = true ->
  deactivated (gadget_run (gadget_init o) cs) = false /\
  connected (gadget_run (gadget_init o) cs) = true.
Proof.
  apply (gadget_run_keeps_visibility cs (gadget_init o)).
  intros H. discriminate H.
Qed.

Lemma pullup_only_when_visible_witness :
  deactivated
    (gadget_run (gadget_init udc_reliable)
       [Deactivate; Connect; Activate]) = false /\
  connected
    (gadget_run (gadget_init udc_reliable)
       [Deactivate; Connect; Activate]) = true.
Proof.
  apply (pullup_only_when_visible udc_reliable
           [Deactivate; Connect; Activate]).
  reflexivity.
Defined.

(** C10: on a connected, active gadget, if the pullup call that
    [usb_gadget_deactivate] makes to release the line fails, deactivate
    returns that code; the only change is the recorded call: [connected]
    stays set, [deactivated] stays clear, the pullup stays where it was. *)
Theorem deactivate_failed_pullup_keeps_state g op :
  connected g = true ->
  deactivated g = false ->
  pullup (gadget_ops g) = Some op ->
  op (udc_calls g) 0 <> 0 ->
  usb_gadget_deactivate g
    = (op (udc_calls g) 0,
       udc_record (CallPullup 0 (op (udc_calls g) 0)) g) /\
  connected (snd (usb_gadget_deactivate g)) = true /\
  deactivated (snd (usb_gadget_deactivate g)) = false /\
  pullup_asserted (snd (usb_gadget_deactivate g)) = pullup_asserted g.
Proof.
  intros Hc Hd Hp Hfail.
  apply Z.eqb_neq in Hfail.
  assert (Hrun : usb_gadget_deactivate g
                 = (op (udc_calls g) 0,
                    udc_record (CallPullup 0 (op (udc_calls g) 0)) g)).
  { unfold usb_gadget_deactivate. rewrite Hd, Hc.
    rewrite (usb_gadget_disconnect_active g op Hp Hd).
    cbv zeta. rewrite Hfail. cbv iota beta. rewrite Hfail. reflexivity. }
  rewrite Hrun. cbn [snd].
  rewrite pullup_asserted_record, Hfail.
  cbn. auto.
Qed.

Lemma deactivate_failed_pullup_keeps_state_witness :
  usb_gadget_deactivate gadget_stuck
    = (-110, udc_record (CallPullup 0 (-110)) gadget_stuck) /\
  connected (snd (usb_gadget_deactivate gadget_stuck)) = true /\
  deactivated (snd (usb_gadget_deactivate gadget_stuck)) = false /\
  pullup_asserted (snd (usb_gadget_deactivate gadget_stuck))
    = pullup_asserted gadget_stuck.
Proof.
  apply (deactivate_failed_pullup_keeps_state gadget_stuck
           (fun _ is_on => if is_on =? 0 then -110 else 0));
    [reflexivity | reflexivity | reflexivity | discriminate].
Defined.

(** C1, as the code has it: when a set connect intent is in effect before
    the call (the gadget is active and its pullup asserted) and the activate
    call returns 0, deactivate followed by activate leaves the pullup and
    [connected] as they were. *)
Theorem deactivate_activate_round_trip g :
  (connected g = true -> deactivated g = false /\ pullup_asserted g = true) ->
  fst (usb_gadget_activate (snd (usb_gadget_deactivate g))) = 0 ->
  deactivate_activate_restores g.
Proof.
  unfold deactivate_activate_restores, deactivate_activate.
  destruct g as [[w p] d c h]. destruct c.
  - (* connect intent set: it must be in effect *)
    intros Hpre. destruct (Hpre eq_refl) as [Hd Hl]. cbn in Hd, Hl.
    subst d. clear Hpre. revert Hl.
    unfold usb_gadget_activate, usb_gadget_deactivate,
      usb_gadget_connect, usb_gadget_disconnect, pullup_asserted.
    destruct p as [op|]; cbn; [|intros Hl _; split; reflexivity].
    destruct (op h 0 =? 0) eqn:Hoff; cbn.
    + intros Hl Hon. rewrite Hon. cbn. rewrite Hl. split; reflexivity.
    + intros Hl _. rewrite Hoff. split; reflexivity.
  - (* no connect intent: neither call reaches the controller *)
    intros _ _.
    unfold usb_gadget_activate, usb_gadget_deactivate, pullup_asserted.
    destruct d; cbn; split; reflexivity.
Qed.

Lemma deactivate_activate_round_trip_witness :
  deactivate_activate_restores
    (gadget_run (gadget_init udc_reliable) [Connect]).
Proof.
  apply (deactivate_activate_round_trip
           (gadget_run (gadget_init udc_reliable) [Connect])).
  - intros _. split; reflexivity.
  - reflexivity.
Defined.

(** C1, as it is worded, fails: on a gadget that was connected and then
    deactivated the pullup is off; deactivate (a no-op) followed by activate
    asserts it. *)
Lemma deactivate_activate_on_parked_gadget :
  ~ deactivate_activate_restores gadget_parked.
Proof.
  intros (Hl & _). discriminate Hl.
Qed.

(** The round trip also needs the activate call to succeed: on a controller
    whose re-assert times out the pullup stays off. *)
Example deactivate_activate_failed_reassert :
  let o := {| wakeup := None;
              pullup := Some (fun h is_on =>
                                match h with
                                | [_; _] => -110
                                | _ => 0
                                end) |} in
  let g := gadget_run (gadget_init o) [Connect] in
  observable g = (true, false, true) /\
  fst (usb_gadget_activate (snd (usb_gadget_deactivate g))) = -110 /\
  observable (deactivate_activate g) = (true, false, false).
Proof.
  cbn. repeat split.
Qed.

(** ... and a connect intent that is in effect: after a failed activate the
    gadget is active with [connected] set and the pullup off, and the next
    deactivate and activate raise it. *)
Example deactivate_activate_after_failed_activate :
  let g := gadget_run (gadget_init udc_slow_start)
             [Deactivate; Connect; Activate] in
  observable g = (true, false, false) /\
  observable (deactivate_activate g) = (true, false, true).
Proof.
  cbn. split; reflexivity.
Qed.

(** * Endpoint enable and disable: return codes, round trip, call runs *)

(** X1: [usb_ep_enable] dereferences a NULL descriptor exactly when the
    endpoint is not enabled and no descriptor is bound; in every other case
    it returns. *)
Theorem usb_ep_enable_faults_iff ep :
  usb_ep_enable ep = None <-> enabled ep = false /\ desc ep = None.
Proof.
  unfold usb_ep_enable.
  destruct (enabled ep); [split; [discriminate | intros [H _]; discriminate H]|].
  destruct (desc ep) as [d|].
  - split; [|intros [_ H]; discriminate H].
    destruct (usb_endpoint_maxp d =? 0); [discriminate|].
    destruct (negb _); discriminate.
  - split; auto.
Qed.

(** X2: whenever [usb_ep_enable] returns, it returns 0 exactly when the
    endpoint is enabled afterwards, and at most one call reaches the
    controller: its enable operation, with the descriptor that was bound,
    returning the code that the wrapper returns. *)
Theorem usb_ep_enable_code ep r ep' :
  usb_ep_enable ep = Some (r, ep') ->
  (r = 0 <-> enabled ep' = true) /\
  (ep_calls ep' = ep_calls ep \/
   exists d, desc ep = Some d /\ ep_calls ep' = CallEnable d r :: ep_calls ep).
Proof.
  unfold usb_ep_enable.
  destruct (enabled ep) eqn:He.
  - intros H; injection H as <- <-. rewrite He. tauto.
  - destruct (desc ep) as [d|] eqn:Hd; [|discriminate].
    destruct (usb_endpoint_maxp d =? 0).
    + intros H; injection H as <- <-. rewrite He. unfold EINVAL.
      repeat split; auto; discriminate.
    + destruct (enable (ep_ops ep) (ep_calls ep) d =? 0) eqn:Hr; cbn [negb].
      * apply Z.eqb_eq in Hr. intros H; injection H as <- <-.
        cbn. rewrite Hr.
        repeat split; auto. right. exists d. auto.
      * apply Z.eqb_neq in Hr. intros H; injection H as <- <-.
        cbn. rewrite He.
        repeat split; try tauto; try discriminate.
        right. exists d. auto.
Qed.

Lemma usb_ep_enable_code_witness :
  enabled ep_live = true /\
  (ep_calls ep_live = ep_calls (ep_bound bulk_in_desc) \/
   exists d, desc (ep_bound bulk_in_desc) = Some d /\
             ep_calls ep_live
               = CallEnable d 0 :: ep_calls (ep_bound bulk_in_desc)).
Proof.
  destruct (usb_ep_enable_code (ep_bound bulk_in_desc) 0 ep_live eq_refl)
    as (Hc & Hcalls).
  split; [apply Hc; reflexivity | exact Hcalls].
Defined.

(** X3: [usb_ep_disable] returns 0 exactly when the endpoint is disabled
    afterwards, so a failed controller disable leaves it enabled; and once
    it has returned 0, a second call returns 0 and changes nothing. *)
Theorem usb_ep_disable_code ep :
  (fst (usb_ep_disable ep) = 0 <->
   enabled (snd (usb_ep_disable ep)) = false) /\
  (fst (usb_ep_disable ep) = 0 ->
   usb_ep_disable (snd (usb_ep_disable ep))
     = (0, snd (usb_ep_disable ep))).
Proof.
  destruct (usb_ep_disable ep) as [r ep'] eqn:Hrun. cbn [fst snd].
  unfold usb_ep_disable in Hrun.
  destruct (enabled ep) eqn:He; cbn [negb] in Hrun.
  - destruct (disable (ep_ops ep) (ep_calls ep) =? 0) eqn:Hr;
      cbn [negb] in Hrun; injection Hrun as <- <-.
    + split; [cbn; tauto|]. intros _. reflexivity.
    + apply Z.eqb_neq in Hr. cbn. rewrite He.
      split; [split; [tauto | discriminate] | tauto].
  - injection Hrun as <- <-. rewrite He. split; [tauto|].
    intros _. unfold usb_ep_disable. rewrite He. reflexivity.
Qed.

Lemma usb_ep_disable_code_witness :
  usb_ep_disable (snd (usb_ep_disable ep_live))
    = (0, snd (usb_ep_disable ep_live)).
Proof.
  apply (proj2 (usb_ep_disable_code ep_live)). reflexivity.
Defined.

(** X4: a successful enable of a disabled endpoint followed by a successful
    disable leaves the endpoint disabled again, and the controller received
    exactly two calls: enable with the descriptor that was bound, then
    disable. *)
Theorem usb_ep_enable_disable_round_trip ep ep1 :
  enabled ep = false ->
  usb_ep_enable ep = Some (0, ep1) ->
  fst (usb_ep_disable ep1) = 0 ->
  exists d, desc ep = Some d /\
    enabled (snd (usb_ep_disable ep1)) = false /\
    ep_calls (snd (usb_ep_disable ep1))
      = CallDisable 0 :: CallEnable d 0 :: ep_calls ep.
Proof.
  intros He Hen.
  unfold usb_ep_enable in Hen. rewrite He in Hen.
  destruct (desc ep) as [d|] eqn:Hd; [|discriminate].
  destruct (usb_endpoint_maxp d =? 0); [discriminate|].
  destruct (enable (ep_ops ep) (ep_calls ep) d =? 0) eqn:Hr;
    cbn [negb] in Hen.
  - apply Z.eqb_eq in Hr. rewrite Hr in Hen. injection Hen as <-.
    unfold usb_ep_disable; cbn.
    destruct (disable (ep_ops ep) (CallEnable d 0 :: ep_calls ep) =? 0)
      eqn:Hdis; cbn.
    + intros _. exists d. split; [reflexivity|].
      apply Z.eqb_eq in Hdis. rewrite Hdis.
      split; reflexivity.
    + apply Z.eqb_neq in Hdis. intros H. contradiction.
  - injection Hen as Hz _. rewrite Hz in Hr. discriminate Hr.
Qed.

Lemma usb_ep_enable_disable_round_trip_witness :
  exists d, desc (ep_bound bulk_in_desc) = Some d /\
    enabled (snd (usb_ep_disable ep_live)) = false /\
    ep_calls (snd (usb_ep_disable ep_live))
      = CallDisable 0 :: CallEnable d 0 :: ep_calls (ep_bound bulk_in_desc).
Proof.
  apply (usb_ep_enable_disable_round_trip (ep_bound bulk_in_desc) ep_live);
    reflexivity.
Defined.

Ltac ep_cases :=
  repeat match goal with
         | |- context [match ?o with Some _ => _ | None => _ end] =>
           destruct o eqn:?
         | |- context [if ?b then _ else _] => destruct b eqn:?
         end.

(** One endpoint call keeps the [enabled] flag in step with the controller
    and keeps the controller's enable and disable operations paired. *)
Lemma ep_step_tracks ep c ep' :
  ep_step ep c = Some ep' ->
  enabled ep = hw_enabled (ep_calls ep) /\
  enable_disable_paired (ep_calls ep) = true ->
  enabled ep' = hw_enabled (ep_calls ep') /\
  enable_disable_paired (ep_calls ep') = true.
Proof.
  intros Hstep [Hen Hp]. revert Hstep.
  destruct c; cbn [ep_step];
    unfold usb_ep_enable, usb_ep_disable, usb_ep_set_halt, usb_ep_clear_halt,
      usb_ep_set_wedge, usb_ep_fifo_status, usb_ep_fifo_flush, usb_gsi_ep_op;
    ep_cases; cbn; intros H; try discriminate H;
    injection H as <-; cbn;
    rewrite <- ?Hen, ?Hp;
    repeat match goal with
           | H : negb _ = _ |- _ => apply (f_equal negb) in H;
                                    rewrite negb_involutive in H; cbn in H
           | H : (_ =? 0) = _ |- _ => rewrite H
           | H : enabled ep = _ |- _ => rewrite H
           end;
    auto.
Qed.

(** X5: through any sequence of endpoint calls on an endpoint that starts
    disabled with an untouched controller, the [enabled] flag is what the
    controller's last successful enable or disable made it, and the
    controller never sees an enable while it has the endpoint enabled, nor a
    disable while it has it disabled. *)
Theorem ep_run_enable_disable_paired o limit d cs ep' :
  ep_run (ep_init o limit d) cs = Some ep' ->
  enabled ep' = hw_enabled (ep_calls ep') /\
  enable_disable_paired (ep_calls ep') = true.
Proof.
  assert (Hgen : forall cs ep,
             enabled ep = hw_enabled (ep_calls ep) /\
             enable_disable_paired (ep_calls ep) = true ->
             ep_run ep cs = Some ep' ->
             enabled ep' = hw_enabled (ep_calls ep') /\
             enable_disable_paired (ep_calls ep') = true).
  { clear cs. induction cs as [|c cs IH]; intros ep Hinv; cbn [ep_run].
    - intros H; injection H as <-. exact Hinv.
    - destruct (ep_step ep c) as [ep1|] eqn:Hstep; [|discriminate].
      apply IH. eapply ep_step_tracks; eauto. }
  intros Hrun. apply (Hgen cs (ep_init o limit d)); [|exact Hrun].
  split; reflexivity.
Qed.

Lemma ep_run_enable_disable_paired_witness :
  exists ep',
    ep_run (ep_init ep_ops_flaky 512 (Some bulk_in_desc))
      [EpEnable; EpEnable; EpSetHalt; EpDisable; EpClearHalt; EpDisable;
       EpDisable; EpEnable; EpEnable] = Some ep' /\
    enabled ep' = hw_enabled (ep_calls ep') /\
    enable_disable_paired (ep_calls ep') = true.
Proof.
  eexists. split; [reflexivity|].
  apply (ep_run_enable_disable_paired ep_ops_flaky 512 (Some bulk_in_desc)
           [EpEnable; EpEnable; EpSetHalt; EpDisable; EpClearHalt; EpDisable;
            EpDisable; EpEnable; EpEnable]).
  reflexivity.
Defined.

(** X7: [usb_ep_set_maxpacket_limit] sets both packet sizes to the same
    value, the limit modulo 2^16, which is the limit itself when it fits the
    16-bit field; it writes nothing else. *)
Theorem usb_ep_set_maxpacket_limit_spec ep limit :
  let ep' := usb_ep_set_maxpacket_limit ep limit in
  maxpacket ep' = maxpacket_limit ep' /\
  maxpacket_limit ep' = limit mod 2 ^ 16 /\
  0 <= maxpacket_limit ep' < 2 ^ 16 /\
  (0 <= limit < 2 ^ 16 -> maxpacket_limit ep' = limit) /\
  (ep_ops ep', claimed ep', enabled ep', desc ep', ep_kind ep', ep_calls ep')
    = (ep_ops ep, claimed ep, enabled ep, desc ep, ep_kind ep, ep_calls ep).
Proof.
  intros ep'. subst ep'.
  change (maxpacket (usb_ep_set_maxpacket_limit ep limit))
    with (limit mod 2 ^ 16).
  change (maxpacket_limit (usb_ep_set_maxpacket_limit ep limit))
    with (limit mod 2 ^ 16).
  assert (Hb : 0 <= limit mod 2 ^ 16 < 2 ^ 16)
    by (apply Z.mod_pos_bound; lia).
  split; [reflexivity|]. split; [reflexivity|]. split; [exact Hb|].
  split; [intros Hr; apply Z.mod_small; exact Hr|].
  reflexivity.
Qed.

Lemma usb_ep_set_maxpacket_limit_spec_witness :
  maxpacket (usb_ep_set_maxpacket_limit ep_live 1024)
    = maxpacket_limit (usb_ep_set_maxpacket_limit ep_live 1024) /\
  maxpacket_limit (usb_ep_set_maxpacket_limit ep_live 1024) = 1024 /\
  maxpacket_limit (usb_ep_set_maxpacket_limit ep_live 65536) = 0.
Proof.
  destruct (usb_ep_set_maxpacket_limit_spec ep_live 1024)
    as (H1 & _ & _ & H4 & _).
  destruct (usb_ep_set_maxpacket_limit_spec ep_live 65536)
    as (_ & H2 & _).
  split; [exact H1|]. split; [apply H4; lia | exact H2].
Defined.

(** * Buffer length alignment *)

Lemma land_le_r a b : 0 <= b -> Z.land a b <= b.
Proof.
  intros Hb.
  pose proof (Z.add_lor_land (Z.ldiff b a) (Z.land b a)) as H.
  rewrite Z.lor_ldiff_and in H.
  assert (Hz : Z.land (Z.ldiff b a) (Z.land b a) = 0).
  { apply Z.bits_inj'. intros n Hn.
    rewrite !Z.land_spec, Z.ldiff_spec, Z.bits_0.
    destruct (Z.testbit b n), (Z.testbit a n); reflexivity. }
  rewrite Hz in H.
  assert (0 <= Z.ldiff b a) by (apply Z.ldiff_nonneg; left; exact Hb).
  rewrite (Z.land_comm a b). lia.
Qed.

Lemma lor_bounds a m : 0 <= a -> 0 <= m -> a <= Z.lor a m <= a + m.
Proof.
  intros Ha Hm.
  pose proof (Z.add_lor_land a m) as H.
  pose proof (land_le_r a m Hm).
  assert (0 <= Z.land a m) by (apply Z.land_nonneg; left; exact Ha).
  lia.
Qed.

Lemma lor_ones_64 a : 0 <= a < 2 ^ 64 -> Z.lor a (Z.ones 64) = Z.ones 64.
Proof.
  intros [H0 H1].
  destruct (Z.eq_dec a 0) as [->|Hne]; [reflexivity|].
  apply Z.lor_ones_low; [exact H0|].
  apply Z.log2_lt_pow2; lia.
Qed.

Lemma size_t_range x : 0 <= size_t x < 2 ^ 64.
Proof. unfold size_t. apply Z.mod_pos_bound. lia. Qed.

Lemma size_t_small x : 0 <= x < 2 ^ 64 -> size_t x = x.
Proof. unfold size_t. apply Z.mod_small. Qed.

(** Rounding up to a zero packet size gives zero. *)
Lemma round_up_zero_size x : round_up x 0 = 0.
Proof.
  unfold round_up.
  change (size_t (0 - 1)) with (Z.ones 64).
  rewrite lor_ones_64 by apply size_t_range.
  reflexivity.
Qed.

(** Rounding up a zero length gives zero. *)
Lemma round_up_zero_len y : 1 <= y <= 2 ^ 64 -> round_up 0 y = 0.
Proof.
  intros Hy. unfold round_up.
  change (size_t (0 - 1)) with (Z.ones 64).
  rewrite Z.lor_comm, lor_ones_64 by apply size_t_range.
  reflexivity.
Qed.

(** Away from the wrap-around, [round_up] is the bitwise expression on
    unbounded integers. *)
Lemma round_up_pos x y :
  1 <= x -> 1 <= y -> x + y <= 2 ^ 64 ->
  round_up x y = Z.lor (x - 1) (y - 1) + 1.
Proof.
  intros Hx Hy Hsum. unfold round_up.
  rewrite (size_t_small (x - 1)), (size_t_small (y - 1)) by lia.
  pose proof (lor_bounds (x - 1) (y - 1)).
  apply size_t_small. lia.
Qed.

Lemma round_up_bounds x y :
  0 <= x -> 1 <= y -> x + y <= 2 ^ 64 -> x <= round_up x y < x + y.
Proof.
  intros Hx Hy Hsum.
  destruct (Z.eq_dec x 0) as [->|Hne].
  - rewrite round_up_zero_len by lia. lia.
  - rewrite round_up_pos by lia.
    pose proof (lor_bounds (x - 1) (y - 1)). lia.
Qed.

Lemma round_up_pow2_multiple x k :
  0 <= k -> 0 <= x -> x + 2 ^ k <= 2 ^ 64 ->
  round_up x (2 ^ k) mod 2 ^ k = 0.
Proof.
  intros Hk Hx Hsum.
  assert (Hp : 0 < 2 ^ k) by (apply Z.pow_pos_nonneg; lia).
  destruct (Z.eq_dec x 0) as [->|Hne].
  - rewrite round_up_zero_len by lia. apply Z.mod_0_l. lia.
  - rewrite round_up_pos by lia.
    replace (2 ^ k - 1) with (Z.ones k) by (rewrite Z.ones_equiv; lia).
    pose proof (Z.add_lor_land (x - 1) (Z.ones k)) as H.
    rewrite Z.land_ones in H by exact Hk.
    pose proof (Z.ones_equiv k) as Ho.
    assert (Hdm := Z.div_mod (x - 1) (2 ^ k) ltac:(lia)).
    replace (Z.lor (x - 1) (Z.ones k) + 1)
      with ((1 + (x - 1) / 2 ^ k) * 2 ^ k) by lia.
    apply Z.mod_mul. lia.
Qed.

(** X8: with a bound descriptor whose packet size (bits 10..0) is at least
    1, and a length that leaves room below 2^64, [usb_ep_align] returns a
    length that is not smaller than the one given and exceeds it by less
    than the packet size. *)
Theorem usb_ep_align_bounds ep d len :
  desc ep = Some d ->
  1 <= align_packet_size d ->
  0 <= len ->
  len + align_packet_size d <= 2 ^ 64 ->
  exists r, usb_ep_align ep len = Some r /\
            len <= r < len + align_packet_size d.
Proof.
  intros Hd Hm Hlen Hsum. unfold usb_ep_align. rewrite Hd.
  eexists. split; [reflexivity|].
  apply round_up_bounds; assumption.
Qed.

Lemma usb_ep_align_bounds_witness :
  exists r, usb_ep_align ep_live 1000 = Some r /\ 1000 <= r < 1000 + 512.
Proof.
  apply (usb_ep_align_bounds ep_live bulk_in_desc 1000);
    [reflexivity | cbv; discriminate | lia | cbv; discriminate].
Defined.

(** X9: when the packet size is a power of two, the length returned by
    [usb_ep_align] is the least multiple of the packet size that is not
    below the given length. *)
Theorem usb_ep_align_pow2 ep d k len :
  desc ep = Some d ->
  0 <= k ->
  align_packet_size d = 2 ^ k ->
  0 <= len ->
  len + 2 ^ k <= 2 ^ 64 ->
  exists r, usb_ep_align ep len = Some r /\
            r mod 2 ^ k = 0 /\ len <= r < len + 2 ^ k.
Proof.
  intros Hd Hk Hm Hlen Hsum. unfold usb_ep_align. rewrite Hd.
  cbv zeta. rewrite Hm.
  assert (Hp : 0 < 2 ^ k) by (apply Z.pow_pos_nonneg; lia).
  eexists. split; [reflexivity|]. split.
  - apply round_up_pow2_multiple; assumption.
  - apply round_up_bounds; lia.
Qed.

Lemma usb_ep_align_pow2_witness :
  exists r, usb_ep_align ep_live 1000 = Some r /\
            r mod 2 ^ 9 = 0 /\ 1000 <= r < 1000 + 2 ^ 9.
Proof.
  apply (usb_ep_align_pow2 ep_live bulk_in_desc 9 1000);
    [reflexivity | lia | reflexivity | lia | cbv; discriminate].
Defined.

(** X10: when bits 10..0 of the descriptor's packet size are all zero,
    [usb_ep_align] returns 0 for every length. *)
Theorem usb_ep_align_zero_size ep d len :
  desc ep = Some d ->
  align_packet_size d = 0 ->
  usb_ep_align ep len = Some 0.
Proof.
  intros Hd Hm. unfold usb_ep_align. rewrite Hd. cbv zeta. rewrite Hm.
  rewrite round_up_zero_size. reflexivity.
Qed.

(** A descriptor that carries only the high-bandwidth multiplier bits: its
    wMaxPacketSize is not zero, so [usb_ep_enable] accepts it, and every
    length is aligned to 0. *)
Lemma usb_ep_align_zero_size_witness :
  usb_endpoint_maxp
    {| bEndpointAddress := 129; bmAttributes := 1; wMaxPacketSize := 2048 |}
    <> 0 /\
  usb_ep_align
    (ep_bound
       {| bEndpointAddress := 129; bmAttributes := 1;
          wMaxPacketSize := 2048 |}) 4096 = Some 0.
Proof.
  split; [discriminate|].
  apply (usb_ep_align_zero_size _
           {| bEndpointAddress := 129; bmAttributes := 1;
              wMaxPacketSize := 2048 |} 4096); reflexivity.
Defined.

(** X11: [usb_ep_align_maybe] returns the length unchanged, without looking
    at the endpoint, when the quirk bit is clear; it dereferences a NULL
    descriptor exactly when the quirk bit is set and no descriptor is
    bound. *)
Theorem usb_ep_align_maybe_spec quirk ep len :
  (quirk = false -> usb_ep_align_maybe quirk ep len = Some len) /\
  (usb_ep_align_maybe quirk ep len = None <->
   quirk = true /\ desc ep = None).
Proof.
  unfold usb_ep_align_maybe, usb_ep_align.
  destruct quirk.
  - split; [discriminate|].
    destruct (desc ep); split; try discriminate; auto.
    intros [_ H]; discriminate H.
  - split; [reflexivity|]. split; [discriminate|].
    intros [H _]; discriminate H.
Qed.

(** * The connection state machine: what each call can and cannot do *)

(** X12: the two flags are written independently: deactivate and activate
    never change the connect intent, connect and disconnect never change
    the deactivated flag. *)
Theorem flags_orthogonal g :
  connected (snd (usb_gadget_deactivate g)) = connected g /\
  connected (snd (usb_gadget_activate g)) = connected g /\
  deactivated (snd (usb_gadget_connect g)) = deactivated g /\
  deactivated (snd (usb_gadget_disconnect g)) = deactivated g.
Proof.
  destruct g as [[w [op|]] [|] [|] h];
    unfold usb_gadget_activate, usb_gadget_deactivate,
      usb_gadget_connect, usb_gadget_disconnect; cbn;
    repeat match goal with
           | |- context [?x =? 0] => destruct (x =? 0); cbn
           end;
    repeat split.
Qed.

(** X13: [usb_gadget_deactivate] returns 0 exactly when the gadget is
    deactivated afterwards, and a second call is then a no-op returning 0;
    [usb_gadget_activate] always leaves the gadget active, whatever it
    returns, and a second call is always a no-op returning 0. *)
Theorem deactivate_activate_idempotent g :
  (fst (usb_gadget_deactivate g) = 0 <->
   deactivated (snd (usb_gadget_deactivate g)) = true) /\
  (fst (usb_gadget_deactivate g) = 0 ->
   usb_gadget_deactivate (snd (usb_gadget_deactivate g))
     = (0, snd (usb_gadget_deactivate g))) /\
  deactivated (snd (usb_gadget_activate g)) = false /\
  usb_gadget_activate (snd (usb_gadget_activate g))
    = (0, snd (usb_gadget_activate g)).
Proof.
  gadget_cases g;
    repeat match goal with
           | H : (_ =? 0) = true |- _ => apply Z.eqb_eq in H
           | H : (_ =? 0) = false |- _ => apply Z.eqb_neq in H
           end;
    unfold EOPNOTSUPP;
    repeat split; intros; try reflexivity; try congruence; try lia.
Qed.

Lemma deactivate_activate_idempotent_witness :
  usb_gadget_deactivate gadget_parked = (0, gadget_parked) /\
  usb_gadget_activate (snd (usb_gadget_activate gadget_stuck))
    = (0, snd (usb_gadget_activate gadget_stuck)).
Proof.
  split.
  - apply (proj1 (proj2 (deactivate_activate_idempotent
                           (gadget_run (gadget_init udc_reliable) [Connect])))).
    reflexivity.
  - apply (proj2 (proj2 (proj2 (deactivate_activate_idempotent gadget_stuck)))).
Defined.

(** X18: each call of the state machine makes at most one call to the
    controller, and only in its own direction: connect and activate can only
    ask for the pullup to be raised, disconnect and deactivate only for it
    to be released. *)
Theorem one_pullup_call_each g :
  (udc_calls (snd (usb_gadget_connect g)) = udc_calls g \/
   exists r, udc_calls (snd (usb_gadget_connect g))
             = CallPullup 1 r :: udc_calls g) /\
  (udc_calls (snd (usb_gadget_activate g)) = udc_calls g \/
   exists r, udc_calls (snd (usb_gadget_activate g))
             = CallPullup 1 r :: udc_calls g) /\
  (udc_calls (snd (usb_gadget_disconnect g)) = udc_calls g \/
   exists r, udc_calls (snd (usb_gadget_disconnect g))
             = CallPullup 0 r :: udc_calls g) /\
  (udc_calls (snd (usb_gadget_deactivate g)) = udc_calls g \/
   exists r, udc_calls (snd (usb_gadget_deactivate g))
             = CallPullup 0 r :: udc_calls g).
Proof.
  gadget_cases g; repeat split; eauto.
Qed.

(** X19: a connect that returns 0 leaves the connect intent set, and on an
    active gadget the pullup asserted; a disconnect that returns 0 leaves
    the intent clear, and on an active gadget the pullup released; a connect
    or disconnect that returns an error changes neither flag nor the
    pullup. *)
Theorem connect_return_code g :
  (fst (usb_gadget_connect g) = 0 ->
   connected (snd (usb_gadget_connect g)) = true /\
   (deactivated g = false ->
    pullup_asserted (snd (usb_gadget_connect g)) = true)) /\
  (fst (usb_gadget_disconnect g) = 0 ->
   connected (snd (usb_gadget_disconnect g)) = false /\
   (deactivated g = false ->
    pullup_asserted (snd (usb_gadget_disconnect g)) = false)) /\
  (fst (usb_gadget_connect g) <> 0 ->
   observable (snd (usb_gadget_connect g)) = observable g) /\
  (fst (usb_gadget_disconnect g) <> 0 ->
   observable (snd (usb_gadget_disconnect g)) = observable g).
Proof.
  unfold observable.
  gadget_cases g;
    repeat match goal with
           | H : (_ =? 0) = true |- _ => apply Z.eqb_eq in H
           | H : (_ =? 0) = false |- _ => apply Z.eqb_neq in H
           end;
    unfold EOPNOTSUPP;
    repeat split; intros; try reflexivity; try congruence; try lia.
Qed.

Lemma connect_return_code_witness :
  connected (snd (usb_gadget_connect (gadget_init udc_stuck_on))) = true /\
  observable (snd (usb_gadget_disconnect gadget_stuck))
    = observable gadget_stuck.
Proof.
  destruct (connect_return_code (gadget_init udc_stuck_on)) as (Hc & _).
  destruct (connect_return_code gadget_stuck) as (_ & _ & _ & Hd).
  split.
  - exact (proj1 (Hc eq_refl)).
  - apply Hd. discriminate.
Defined.

(** X20: when the connect that [usb_gadget_activate] replays fails, activate
    returns that code but the gadget is active from then on, with the
    connect intent set and the pullup where it was: calling activate again
    returns 0 without a new attempt, and only [usb_gadget_connect] tries the
    pullup again. *)
Theorem activate_failed_pullup g op :
  pullup (gadget_ops g) = Some op ->
  deactivated g = true ->
  connected g = true ->
  op (udc_calls g) 1 <> 0 ->
  let g1 := snd (usb_gadget_activate g) in
  fst (usb_gadget_activate g) = op (udc_calls g) 1 /\
  deactivated g1 = false /\ connected g1 = true /\
  pullup_asserted g1 = pullup_asserted g /\
  usb_gadget_activate g1 = (0, g1) /\
  udc_calls (snd (usb_gadget_connect g1))
    = CallPullup 1 (op (udc_calls g1) 1) :: udc_calls g1.
Proof.
  intros Hp Hd Hc Hfail.
  apply Z.eqb_neq in Hfail.
  destruct g as [[w p] d c h]; cbn in *. subst p d c.
  unfold usb_gadget_activate, usb_gadget_connect, pullup_asserted; cbn.
  rewrite Hfail; cbn. rewrite Hfail.
  repeat split.
  destruct (op (CallPullup 1 (op h 1) :: h) 1 =? 0); reflexivity.
Qed.

Lemma activate_failed_pullup_witness :
  let g := gadget_run (gadget_init udc_slow_start) [Deactivate; Connect] in
  fst (usb_gadget_activate g) = -110 /\
  observable (snd (usb_gadget_activate g)) = (true, false, false) /\
  usb_gadget_activate (snd (usb_gadget_activate g))
    = (0, snd (usb_gadget_activate g)).
Proof.
  destruct (activate_failed_pullup
              (gadget_run (gadget_init udc_slow_start) [Deactivate; Connect])
              (fun h is_on =>
                 match h with
                 | [] => if is_on =? 0 then 0 else -110
                 | _ :: _ => 0
                 end)
              eq_refl eq_refl eq_refl ltac:(discriminate))
    as (Hr & Hd & Hc & Hl & Ha & _).
  cbv zeta. split; [exact Hr|]. split; [reflexivity | exact Ha].
Defined.

(** * Runs of the connection state machine *)

Ltac connect_calls :=
  repeat first
    [ apply Forall_nil
    | apply Forall_cons; [first [left; reflexivity | right; reflexivity]|] ].

Lemma gadget_run_app g cs1 cs2 :
  gadget_run g (cs1 ++ cs2) = gadget_run (gadget_run g cs1) cs2.
Proof. unfold gadget_run. apply fold_left_app. Qed.

Lemma gadget_step_ops g c : gadget_ops (gadget_step g c) = gadget_ops g.
Proof.
  destruct c; cbn [gadget_step]; gadget_cases g; reflexivity.
Qed.

Lemma connect_step_keeps_deactivated g c :
  c = Connect \/ c = Disconnect ->
  deactivated (gadget_step g c) = deactivated g.
Proof.
  intros [-> | ->]; cbn [gadget_step]; gadget_cases g; reflexivity.
Qed.

Lemma connect_run_keeps_deactivated cs : forall g,
  Forall (fun c => c = Connect \/ c = Disconnect) cs ->
  deactivated (gadget_run g cs) = deactivated g.
Proof.
  induction cs as [|c cs IH]; intros g Hcs; [reflexivity|].
  inversion Hcs as [|? ? Hc Hrest]; subst.
  cbn. change (fold_left gadget_step cs (gadget_step g c))
    with (gadget_run (gadget_step g c) cs).
  rewrite IH by exact Hrest.
  apply connect_step_keeps_deactivated. exact Hc.
Qed.

(** While the gadget is deactivated, a connect or disconnect step only
    writes the intent. *)
Lemma connect_step_while_deactivated g op c :
  pullup (gadget_ops g) = Some op ->
  deactivated g = true ->
  c = Connect \/ c = Disconnect ->
  gadget_step g c
    = set_connected (match c with Connect => true | _ => false end) g.
Proof.
  intros Hp Hd [-> | ->]; cbn [gadget_step];
    unfold usb_gadget_connect, usb_gadget_disconnect;
    rewrite Hp, Hd; reflexivity.
Qed.

(** X14: on a deactivated gadget that has the pullup entry, no sequence of
    connect and disconnect calls reaches the controller or reactivates the
    gadget, and the intent that remains is that of the last call. *)
Theorem intent_while_deactivated g op cs :
  pullup (gadget_ops g) = Some op ->
  deactivated g = true ->
  Forall (fun c => c = Connect \/ c = Disconnect) cs ->
  udc_calls (gadget_run g cs) = udc_calls g /\
  deactivated (gadget_run g cs) = true /\
  (forall cs' c, cs = cs' ++ [c] ->
     connected (gadget_run g cs)
       = match c with Connect => true | _ => false end).
Proof.
  intros Hp Hd Hcs.
  assert (Hgen : forall cs g,
             pullup (gadget_ops g) = Some op ->
             deactivated g = true ->
             Forall (fun c => c = Connect \/ c = Disconnect) cs ->
             pullup (gadget_ops (gadget_run g cs)) = Some op /\
             udc_calls (gadget_run g cs) = udc_calls g /\
             deactivated (gadget_run g cs) = true).
  { clear. induction cs as [|c cs IH]; intros g Hp Hd Hcs; [auto|].
    inversion Hcs as [|? ? Hc Hrest]; subst.
    cbn. change (fold_left gadget_step cs (gadget_step g c))
      with (gadget_run (gadget_step g c) cs).
    rewrite (connect_step_while_deactivated g op c Hp Hd Hc).
    apply (IH (set_connected _ g)); assumption. }
  destruct (Hgen cs g Hp Hd Hcs) as (_ & Hcalls & Hdea).
  split; [exact Hcalls|]. split; [exact Hdea|].
  intros cs' c ->.
  apply Forall_app in Hcs. destruct Hcs as [Hcs' Hc].
  inversion Hc as [|? ? Hc1 _]; subst.
  destruct (Hgen cs' g Hp Hd Hcs') as (Hp' & _ & Hd').
  rewrite gadget_run_app. cbn.
  rewrite (connect_step_while_deactivated _ op c Hp' Hd' Hc1).
  reflexivity.
Qed.

Lemma intent_while_deactivated_witness :
  udc_calls (gadget_run gadget_parked [Disconnect; Connect; Disconnect])
    = udc_calls gadget_parked /\
  connected (gadget_run gadget_parked [Disconnect; Connect; Disconnect])
    = false.
Proof.
  destruct (intent_while_deactivated gadget_parked (fun _ _ => 0)
              [Disconnect; Connect; Disconnect] eq_refl eq_refl)
    as (Hcalls & _ & Hlast).
  - connect_calls.
  - split; [exact Hcalls|].
    exact (Hlast [Disconnect; Connect] Disconnect eq_refl).
Defined.

(** X15: on a controller whose pullup operation always succeeds, in every
    state reached from the initial one the pullup is asserted exactly when
    the gadget is connected and not deactivated. *)
Theorem pullup_tracks_flags_when_reliable o op cs :
  pullup o = Some op ->
  (forall h v, op h v = 0) ->
  pullup_asserted (gadget_run (gadget_init o) cs)
    = connected (gadget_run (gadget_init o) cs)
      && negb (deactivated (gadget_run (gadget_init o) cs)).
Proof.
  intros Hp Hok.
  assert (Hstep : forall g c,
             pullup (gadget_ops g) = Some op ->
             pullup_asserted g = connected g && negb (deactivated g) ->
             pullup_asserted (gadget_step g c)
               = connected (gadget_step g c)
                 && negb (deactivated (gadget_step g c))).
  { intros [[w p] d c h] call Hpg. cbn in Hpg. subst p.
    unfold pullup_asserted. cbn.
    destruct call, d, c; cbn;
      unfold usb_gadget_activate, usb_gadget_deactivate,
        usb_gadget_connect, usb_gadget_disconnect; cbn;
      rewrite ?Hok; cbn; rewrite ?Hok; cbn; intros H; auto. }
  assert (Hgen : forall cs g,
             pullup (gadget_ops g) = Some op ->
             pullup_asserted g = connected g && negb (deactivated g) ->
             pullup_asserted (gadget_run g cs)
               = connected (gadget_run g cs)
                 && negb (deactivated (gadget_run g cs))).
  { clear cs. induction cs as [|c cs IH]; intros g Hpg Hinv; [exact Hinv|].
    cbn. apply IH.
    - rewrite gadget_step_ops. exact Hpg.
    - apply Hstep; assumption. }
  apply Hgen; [exact Hp | reflexivity].
Qed.

Lemma pullup_tracks_flags_when_reliable_witness :
  pullup_asserted
    (gadget_run (gadget_init udc_reliable)
       [Connect; Deactivate; Disconnect; Connect; Activate]) = true.
Proof.
  rewrite (pullup_tracks_flags_when_reliable udc_reliable (fun _ _ => 0)
             [Connect; Deactivate; Disconnect; Connect; Activate]
             eq_refl (fun _ _ => eq_refl)).
  reflexivity.
Defined.

Lemma deactivate_success_deactivated g :
  fst (usb_gadget_deactivate g) = 0 ->
  deactivated (snd (usb_gadget_deactivate g)) = true.
Proof.
  gadget_cases g;
    repeat match goal with
           | H : (_ =? 0) = false |- _ => apply Z.eqb_neq in H
           end;
    unfold EOPNOTSUPP; intros; try reflexivity; try congruence; try lia.
Qed.

(** X16: once [usb_gadget_deactivate] has returned 0 on a gadget reached
    from the initial state, the pullup is off and stays off through any
    sequence of connect and disconnect calls. *)
Theorem deactivated_gadget_stays_invisible o cs cs2 :
  fst (usb_gadget_deactivate (gadget_run (gadget_init o) cs)) = 0 ->
  Forall (fun c => c = Connect \/ c = Disconnect) cs2 ->
  pullup_asserted
    (gadget_run (snd (usb_gadget_deactivate (gadget_run (gadget_init o) cs)))
       cs2) = false.
Proof.
  intros Hret Hcs2.
  set (g := gadget_run (gadget_init o) cs) in *.
  set (g3 := gadget_run (snd (usb_gadget_deactivate g)) cs2).
  assert (Hd : deactivated g3 = true).
  { unfold g3. rewrite connect_run_keeps_deactivated by exact Hcs2.
    apply deactivate_success_deactivated. exact Hret. }
  assert (Hvis : pullup_implies_visible g3).
  { unfold g3. apply gadget_run_keeps_visibility.
    apply deactivate_keeps_visibility.
    unfold g. apply gadget_run_keeps_visibility.
    intros H. discriminate H. }
  destruct (pullup_asserted g3) eqn:Hl; [|reflexivity].
  destruct (Hvis Hl) as [Hd' _]. congruence.
Qed.

Lemma deactivated_gadget_stays_invisible_witness :
  pullup_asserted
    (gadget_run
       (snd (usb_gadget_deactivate
               (gadget_run (gadget_init udc_reliable) [Connect])))
       [Disconnect; Connect]) = false.
Proof.
  apply (deactivated_gadget_stays_invisible udc_reliable [Connect]
           [Disconnect; Connect]).
  - reflexivity.
  - connect_calls.
Defined.

(** X17: on a controller without the pullup entry, no sequence of calls
    from the initial state ever sets the connect intent or reaches the
    controller. *)
Theorem never_connected_without_pullup o cs :
  pullup o = None ->
  connected (gadget_run (gadget_init o) cs) = false /\
  udc_calls (gadget_run (gadget_init o) cs) = [].
Proof.
  intros Hp.
  assert (Hgen : forall cs g,
             pullup (gadget_ops g) = None ->
             connected g = false -> udc_calls g = [] ->
             connected (gadget_run g cs) = false /\
             udc_calls (gadget_run g cs) = []).
  { clear cs. induction cs as [|c cs IH]; intros g Hpg Hc Hh; [auto|].
    cbn. apply IH.
    - rewrite gadget_step_ops. exact Hpg.
    - destruct g as [[w p] d c0 h]; cbn in *; subst.
      destruct c, d; reflexivity.
    - destruct g as [[w p] d c0 h]; cbn in *; subst.
      destruct c, d; reflexivity. }
  apply Hgen; [exact Hp | reflexivity | reflexivity].
Qed.

Lemma never_connected_without_pullup_witness :
  connected
    (gadget_run (gadget_init udc_bare) [Deactivate; Connect; Activate])
    = false.
Proof.
  apply (never_connected_without_pullup udc_bare
           [Deactivate; Connect; Activate]). reflexivity.
Defined.

(** * Runtime PM references *)

Lemma autopm_get_sync_spec gadget :
  fst (usb_gadget_autopm_get gadget) <= 0 /\
  pm_held (snd (usb_gadget_autopm_get gadget))
    = pm_held gadget
      + (if fst (usb_gadget_autopm_get gadget) =? 0 then 1 else 0).
Proof.
  destruct gadget as [[parent|]|]; cbn;
    try (unfold ENODEV; split; lia).
  remember (pm_runtime_get_sync parent (pm_calls parent)) as s eqn:Hs.
  clear Hs.
  destruct (Z.ltb_spec s 0); destruct (Z.ltb_spec 0 s); cbn;
    try (destruct (Z.eqb_spec s 0)); cbn; lia.
Qed.

Lemma autopm_get_async_spec gadget :
  fst (usb_gadget_autopm_get_async gadget) <= 0 /\
  pm_held (snd (usb_gadget_autopm_get_async gadget))
    = pm_held gadget
      + (if fst (usb_gadget_autopm_get_async gadget) =? 0 then 1 else 0).
Proof.
  destruct gadget as [[parent|]|]; cbn;
    try (unfold ENODEV; split; lia).
  remember (pm_runtime_get parent (pm_calls parent)) as s eqn:Hs.
  clear Hs.
  destruct (Z.ltb_spec s 0); destruct (Z.ltb_spec 0 s);
    destruct (Z.eqb_spec s (-115)); cbn;
    try (destruct (Z.eqb_spec s 0)); cbn; lia.
Qed.

Lemma autopm_get_sync_parent gadget :
  fst (usb_gadget_autopm_get gadget) = 0 ->
  exists parent, snd (usb_gadget_autopm_get gadget) = Some (Some parent).
Proof.
  destruct gadget as [[parent|]|]; cbn; try discriminate.
  intros _. eauto.
Qed.

Lemma autopm_get_async_parent gadget :
  fst (usb_gadget_autopm_get_async gadget) = 0 ->
  exists parent,
    snd (usb_gadget_autopm_get_async gadget) = Some (Some parent).
Proof.
  destruct gadget as [[parent|]|]; cbn; try discriminate.
  intros _. eauto.
Qed.

(** X21: [usb_gadget_autopm_get] and [usb_gadget_autopm_get_async] never
    return a positive value, and they keep a usage reference on the parent
    device exactly when they return 0: after an error, or with a NULL gadget
    or parent, as many references were dropped as taken. *)
Theorem autopm_get_holds_iff_success gadget :
  (fst (usb_gadget_autopm_get gadget) <= 0 /\
   pm_held (snd (usb_gadget_autopm_get gadget))
     = pm_held gadget
       + (if fst (usb_gadget_autopm_get gadget) =? 0 then 1 else 0)) /\
  (fst (usb_gadget_autopm_get_async gadget) <= 0 /\
   pm_held (snd (usb_gadget_autopm_get_async gadget))
     = pm_held gadget
       + (if fst (usb_gadget_autopm_get_async gadget) =? 0 then 1 else 0)).
Proof.
  split; [apply autopm_get_sync_spec | apply autopm_get_async_spec].
Qed.

(** X22: a successful get of either kind, or a get without resume, followed
    by a put of any kind leaves the parent device with as many usage
    references as before; the put wrappers and the get without resume do
    nothing on a NULL gadget or parent. *)
Theorem autopm_get_put_balanced gadget :
  (fst (usb_gadget_autopm_get gadget) = 0 ->
   let g := snd (usb_gadget_autopm_get gadget) in
   pm_held (usb_gadget_autopm_put g) = pm_held gadget /\
   pm_held (usb_gadget_autopm_put_async g) = pm_held gadget /\
   pm_held (usb_gadget_autopm_put_no_suspend g) = pm_held gadget) /\
  (fst (usb_gadget_autopm_get_async gadget) = 0 ->
   let g := snd (usb_gadget_autopm_get_async gadget) in
   pm_held (usb_gadget_autopm_put g) = pm_held gadget /\
   pm_held (usb_gadget_autopm_put_async g) = pm_held gadget /\
   pm_held (usb_gadget_autopm_put_no_suspend g) = pm_held gadget) /\
  (let g := usb_gadget_autopm_get_noresume gadget in
   pm_held (usb_gadget_autopm_put g) = pm_held gadget /\
   pm_held (usb_gadget_autopm_put_async g) = pm_held gadget /\
   pm_held (usb_gadget_autopm_put_no_suspend g) = pm_held gadget) /\
  (gadget = None \/ gadget = Some None ->
   usb_gadget_autopm_put gadget = gadget /\
   usb_gadget_autopm_put_async gadget = gadget /\
   usb_gadget_autopm_put_no_suspend gadget = gadget /\
   usb_gadget_autopm_get_noresume gadget = gadget).
Proof.
  split; [|split; [|split]].
  - intros Hret g. subst g.
    destruct (autopm_get_sync_spec gadget) as [_ Hheld].
    destruct (autopm_get_sync_parent gadget Hret) as [p Hp].
    rewrite Hret in Hheld. rewrite Hp in *. cbn in *.
    repeat split; lia.
  - intros Hret g. subst g.
    destruct (autopm_get_async_spec gadget) as [_ Hheld].
    destruct (autopm_get_async_parent gadget Hret) as [p Hp].
    rewrite Hret in Hheld. rewrite Hp in *. cbn in *.
    repeat split; lia.
  - destruct gadget as [[parent|]|]; cbn; repeat split; lia.
  - intros [-> | ->]; repeat split.
Qed.

Lemma autopm_get_put_balanced_witness :
  fst (usb_gadget_autopm_get_async (Some (Some parent_suspended))) = 0 /\
  pm_held
    (usb_gadget_autopm_put
       (snd (usb_gadget_autopm_get_async (Some (Some parent_suspended)))))
    = 0 /\
  usb_gadget_autopm_put (Some None) = Some None.
Proof.
  destruct (autopm_get_put_balanced (Some (Some parent_suspended)))
    as (_ & Hasync & _ & _).
  destruct (autopm_get_put_balanced (Some None)) as (_ & _ & _ & Hnull).
  split; [reflexivity|]. split.
  - exact (proj1 (Hasync eq_refl)).
  - exact (proj1 (Hnull (or_intror eq_refl))).
Defined.

(** * Controller speed *)

(** X23: both speed predicates return 0 or 1, and a controller that
    [gadget_is_superspeed] accepts is also accepted by
    [gadget_is_dualspeed]. *)
Theorem superspeed_is_dualspeed max_speed :
  (gadget_is_dualspeed max_speed = 0 \/ gadget_is_dualspeed max_speed = 1) /\
  (gadget_is_superspeed max_speed = 0 \/
   gadget_is_superspeed max_speed = 1) /\
  (gadget_is_superspeed max_speed <> 0 -> gadget_is_dualspeed max_speed = 1).
Proof.
  unfold gadget_is_dualspeed, gadget_is_superspeed,
    USB_SPEED_HIGH, USB_SPEED_SUPER.
  destruct (Z.leb_spec 3 max_speed); destruct (Z.leb_spec 5 max_speed);
    cbn; repeat split; auto; intros; try congruence; lia.
Qed.
